(** * Attributable risk of an extreme event, and track segments

    A shallow embedding of [jointProb], [attributable], [confidence] and
    [plot_results] from the notebook "Attribution of a single event to climate
    change" (Hansen et al., 2014) and of [make_segments] from the track-map
    notebook, with the properties of them stated in the specification.

    Modelling conventions.
    - A Python float is an exact real number ([R]): rounding, overflow,
      [inf] and [nan] are outside the model.
    - The arguments of [attributable] and [confidence] are floats, as the
      notebook's caller passes them (slider values and a float array of
      period ratios), so [/] is true division there.  [jointProb] has no
      caller; its period lengths are Python 2 numbers, ints as the
      notebook's own [T1] and [T2] or floats, and its counts are natural
      numbers.
    - A division of two Python floats raises [ZeroDivisionError] on a zero
      divisor; it is modelled by [float_div] in the monad [py].  A division
      whose operands are NumPy scalars (anything computed from [np.power] or
      [norm.ppf]) does not raise; it is written [/], and is only meaningful
      where the divisor is not zero.
    - [np.misc.factorial] does not exist in NumPy: the call raises
      [AttributeError].
    - [scipy.stats.norm.ppf] is a parameter of [confidence].
    - [plot_results] is modelled by the data it hands to the axes, with
      [np.vectorize] as an element-wise sweep over the array of period
      ratios; [make_segments] by the rows of the arrays it builds from two
      coordinate lists of one length. *)

From Stdlib Require Import Arith Factorial List Reals Lra Lia Psatz.
Import ListNotations.

Local Open Scope R_scope.

(** ** Results of a Python call *)

Inductive exn : Set := ZeroDivisionError | AttributeError.

Inductive py (A : Type) : Type :=
| Return (a : A)
| Raise (e : exn).

Arguments Return {A} a.
Arguments Raise {A} e.

Definition bind {A B : Type} (c : py A) (k : A -> py B) : py B :=
  match c with
  | Return a => k a
  | Raise e => Raise e
  end.

Notation "x <- c ;; k" := (bind c (fun x => k))
  (at level 61, c at next level, right associativity).

(** [a / b] on Python floats. *)
Definition float_div (a b : R) : py R :=
  if Req_dec_T b 0 then Raise ZeroDivisionError else Return (a / b).

(** ** The NumPy functions the notebook calls *)

Module np.

(** [np.power(a, b)] with a float exponent, for a base [a > 0]. *)
Definition power (a b : R) : R := Rpower a b.

(** [np.power(a, k)] with a count [k] as exponent. *)
Definition power_int (a : R) (k : nat) : R := a ^ k.

Definition sqrt (a : R) : R := R_sqrt.sqrt a.

Definition exp (a : R) : R := Rtrigo_def.exp a.

(** [np.misc.factorial(k)]: NumPy has no attribute [misc] (the factorial of
    that era lives in [scipy.misc]), so evaluating [np.misc] raises
    [AttributeError] before the call is made. *)
Definition misc_factorial (k : nat) : py R := Raise AttributeError.

End np.

(** ** Python 2 numbers *)

Inductive num : Set :=
| Int (z : Z)
| Float (r : R).

Definition to_float (a : num) : R :=
  match a with
  | Int z => IZR z
  | Float r => r
  end.

(** [a / b] in Python 2: floor division on two ints, float division as soon
    as one operand is a float; [ZeroDivisionError] on a zero divisor. *)
Definition num_div (a b : num) : py num :=
  match a, b with
  | Int p, Int q =>
      if Z.eq_dec q 0 then Raise ZeroDivisionError else Return (Int (p / q))
  | _, _ => r <- float_div (to_float a) (to_float b) ;; Return (Float r)
  end.

(** ** jointProb

    [mu] and [beta] are floats (0.5 and 1.5 in the notebook); [T1] and [T2]
    are Python numbers. *)

Definition jointProb (x y : nat) (mu beta : R) (T1 T2 : num) : py R :=
  tau <- num_div T1 T2 ;;
  xyfac <- np.misc_factorial (x + y) ;;
  xfac <- np.misc_factorial x ;;
  yfac <- np.misc_factorial y ;;
  let totalobs :=
    np.power_int (mu * (to_float T1 + beta * to_float T2)) (x + y)
    * np.exp (- mu * (to_float T1 + beta * to_float T2)) / xyfac in
  r1 <- float_div (to_float tau) (to_float tau + beta) ;;
  r2 <- float_div beta (to_float tau + beta) ;;
  let condprob :=
    (xyfac / (xfac * yfac)) * np.power_int r1 x * np.power_int r2 y in
  let pr := totalobs * condprob in
  Return pr.

(** ** attributable *)

Definition attributable (x y tau : R) : py R :=
  r <- float_div x (tau * y) ;;
  Return (1 - r).

(** ** confidence *)

(** The proportion bounds [(L, U)] of the general branch, from the count [x],
    the total [n], the proportion [q] and the quantile [z]. *)
Definition proportion_bounds (x n q z : R) : R * R :=
  let det := np.sqrt (q * (1 - q) + z * z / (4 * n)) in
  let a := (x + z * z / 2) / (n + z * z) in
  let b := z * np.sqrt n / (n + z * z) in
  let L := a - b * det in
  let U := a + b * det in
  (L, U).

(** The attributable-risk bounds [(p_L, p_U)] from the proportion bounds. *)
Definition risk_bounds (tau L U : R) : R * R :=
  let beta_U := tau * (1 - U) / U in
  let beta_L := tau * (1 - L) / L in
  let p_L := 1 - 1 / beta_L in
  let p_U := 1 - 1 / beta_U in
  (p_L, p_U).

Section Confidence.

(** [scipy.stats.norm.ppf], the quantile function of the standard normal
    distribution. *)
Variable ppf : R -> R.

(** [None] is Python's [None]; [Some (p_L, p_U)] is the returned tuple. *)
Definition confidence (x y alpha tau : R) : py (option (R * R)) :=
  if Req_dec_T y 0 then Return None
  else
    let n := x + y in
    q <- float_div x n ;;
    if Req_dec_T x 0 then
      e1 <- float_div 1 n ;;
      let p_U := 1 - np.power alpha e1 in
      e2 <- float_div 1 n ;;
      e3 <- float_div 1 n ;;
      let p_L :=
        1 - (1 - np.power alpha e2) / (tau * np.power alpha e3) in
      Return (Some (p_L, p_U))
    else
      let z := ppf (alpha / 2) in
      let '(L, U) := proportion_bounds x n q z in
      Return (Some (risk_bounds tau L U)).

End Confidence.

(** ** The factorisation the specification states for [jointProb] *)

(** The Poisson mass of a total of [n] events with mean [mu * (T1 + beta * T2)],
    in the specification's words. *)
Definition P_total (mu beta T1 T2 : R) (n : nat) : R :=
  let total_rate := mu * (T1 + beta * T2) in
  total_rate ^ n * exp (- total_rate) / INR (fact n).

(** The binomial split of a total of [n] events into [x] and [n - x], with
    success probability [tau / (tau + beta)], in the specification's words. *)
Definition P_split (beta T1 T2 : R) (x n : nat) : R :=
  let tau := T1 / T2 in
  C n x * (tau / (tau + beta)) ^ x * (beta / (tau + beta)) ^ (n - x).

(** [f 0 + f 1 + ... + f k] for calls that may raise, left to right. *)
Fixpoint py_sum (f : nat -> py R) (k : nat) : py R :=
  match k with
  | O => f O
  | S k' => s <- py_sum f k' ;; p <- f k ;; Return (s + p)
  end.

(** ** A quantile function to run [confidence] with

    The logistic distribution: its distribution function is strictly
    increasing with value 1/2 at 0, and [logistic_ppf] inverts it on (0, 1);
    these are the only facts about the normal distribution that the
    properties below rely on. *)

Definition logistic_cdf (t : R) : R := 1 / (1 + exp (- t)).

Definition logistic_ppf (p : R) : R := ln (p / (1 - p)).

(** ** plot_results, the caller of [attributable] and [confidence] *)

(** [np.vectorize(f)(..., tau)]: [f] at each element of the array [tau], in
    order; the first call that raises ends the sweep. *)
Fixpoint vectorize {A : Type} (f : R -> py A) (tau : list R) : py (list A) :=
  match tau with
  | [] => Return []
  | t :: tau' => a <- f t ;; r <- vectorize f tau' ;; Return (a :: r)
  end.

(** [pL, pU = ...]: the results of [confidence] unpacked into two arrays,
    which fails on a result that is not a pair. *)
Fixpoint unpack (c : list (option (R * R))) : option (list R * list R) :=
  match c with
  | [] => Some ([], [])
  | Some (l, u) :: c' =>
      match unpack c' with
      | Some (ls, us) => Some (l :: ls, u :: us)
      | None => None
      end
  | None :: _ => None
  end.

(** What [plot_results] hands to the axes: the points of the curve
    [ax.plot(tau, p)] and, for each [tau], the two edges of the band
    [ax.fill_between(tau, lower, upper)]. *)
Inductive plot_result : Type :=
| Figure (line : list (R * R)) (band : list (R * (R * R)))
| PlotRaise (e : exn)
| UnpackError.

Definition tau_sweep : list R := [1 / 2; 1; 2; 3; 4; 5].

Section PlotResults.

Variable ppf : R -> R.

Definition plot_results (x y : R) : plot_result :=
  let tau := tau_sweep in
  let alpha := 5 / 100 in
  match vectorize (attributable x y) tau with
  | Raise e => PlotRaise e
  | Return p =>
      match vectorize (confidence ppf x y alpha) tau with
      | Raise e => PlotRaise e
      | Return c =>
          match unpack c with
          | None => UnpackError
          | Some (pL, pU) =>
              if Req_dec_T x 0 then
                Figure (combine tau p)
                       (combine tau (combine pL (map (fun _ => 1) tau)))
              else
                Figure (combine tau p) (combine tau (combine pL pU))
          end
      end
  end.

End PlotResults.

(** ** make_segments (the track-map notebook) *)

Definition point : Type := (R * R)%type.

(** [np.array([x, y]).T.reshape(-1, 1, 2)] for two coordinate lists of one
    length: one row per track point, each row holding the single point
    [(x_i, y_i)]. *)
Definition track_points (x y : list R) : list (list point) :=
  map (fun p : point => [p]) (combine x y).

(** [np.concatenate([a, b], axis=1)] for two arrays with as many rows: the
    rows are joined pairwise. *)
Fixpoint concatenate_axis1 {A : Type} (a b : list (list A)) : list (list A) :=
  match a, b with
  | r :: a', s :: b' => (r ++ s) :: concatenate_axis1 a' b'
  | _, _ => []
  end.

Definition make_segments (x y : list R) : list (list point) :=
  let points := track_points x y in
  let segments := concatenate_axis1 (removelast points) (tl points) in
  segments.

(** ** Quantities the properties are stated with *)

(** The two points of a pair as a row. *)
Definition pair_row {A : Type} (pq : A * A) : list A := [fst pq; snd pq].

(** A list zipped with itself one step on. *)
Definition steps {A : Type} (l : list A) : list (A * A) :=
  combine (removelast l) (tl l).

(** * Properties *)

(** ** Float division *)

Lemma float_div_nonzero (a b : R) : b <> 0 -> float_div a b = Return (a / b).
Proof.
  intros Hb. unfold float_div.
  destruct (Req_dec_T b 0) as [E | _]; [contradiction | reflexivity].
Qed.

Lemma float_div_zero (a : R) : float_div a 0 = Raise ZeroDivisionError.
Proof.
  unfold float_div.
  destruct (Req_dec_T 0 0) as [_ | N]; [reflexivity | now elim N].
Qed.

Lemma float_div_returns (a b r : R) :
  float_div a b = Return r -> b <> 0 /\ r = a / b.
Proof.
  unfold float_div. destruct (Req_dec_T b 0) as [E | N]; intros H.
  - discriminate H.
  - injection H as <-. split; [exact N | reflexivity].
Qed.

(** ** attributable *)

(** C4.  For [x >= 0], [y > 0] and [tau > 0], [attributable x y tau] returns
    exactly [1 - x / (tau * y)]; in particular [attributable 10 10 1] is 0. *)
Theorem attributable_closed_form :
  (forall x y tau : R,
      0 <= x -> 0 < y -> 0 < tau ->
      attributable x y tau = Return (1 - x / (tau * y)))
  /\ attributable 10 10 1 = Return 0.
Proof.
  assert (G : forall x y tau : R,
             0 < y -> 0 < tau ->
             attributable x y tau = Return (1 - x / (tau * y))).
  { intros x y tau Hy Ht. unfold attributable.
    rewrite float_div_nonzero by nra. reflexivity. }
  split.
  - intros x y tau _ Hy Ht. now apply G.
  - rewrite G by lra. f_equal. field.
Qed.

Lemma attributable_closed_form_witness :
  attributable 3 4 2 = Return (1 - 3 / (2 * 4)).
Proof.
  apply (proj1 attributable_closed_form 3 4 2); lra.
Defined.

(** C2, as stated, fails: from [tau = 1] to [tau = 2] with [x = y = 1] the
    risk goes up from 0 to 1/2. *)
Lemma attributable_not_decreasing :
  attributable 1 1 1 = Return 0
  /\ attributable 1 1 2 = Return (1 / 2)
  /\ ~ (1 / 2 < 0).
Proof.
  unfold attributable.
  rewrite !float_div_nonzero by lra. cbn [bind].
  repeat split; try (f_equal; field). lra.
Qed.

(** C2, amended.  For fixed [x > 0] and [y > 0], [attributable x y tau] is
    strictly increasing in [tau] over [tau > 0]. *)
Theorem attributable_increasing_in_tau (x y tau1 tau2 : R) :
  0 < x -> 0 < y -> 0 < tau1 -> tau1 < tau2 ->
  exists r1 r2 : R,
    attributable x y tau1 = Return r1
    /\ attributable x y tau2 = Return r2
    /\ r1 < r2.
Proof.
  intros Hx Hy H1 H12.
  exists (1 - x / (tau1 * y)), (1 - x / (tau2 * y)).
  unfold attributable. rewrite !float_div_nonzero by nra. cbn [bind].
  repeat split.
  apply Rplus_lt_compat_l, Ropp_lt_contravar.
  unfold Rdiv. apply Rmult_lt_compat_l; [exact Hx |].
  apply Rinv_0_lt_contravar; nra.
Qed.

Lemma attributable_increasing_in_tau_witness :
  exists r1 r2 : R,
    attributable 1 1 1 = Return r1
    /\ attributable 1 1 2 = Return r2
    /\ r1 < r2.
Proof.
  apply (attributable_increasing_in_tau 1 1 1 2); lra.
Defined.

(** ** confidence: the three paths *)

Section ConfidencePaths.

Variable ppf : R -> R.

Lemma confidence_zero_y (x alpha tau : R) :
  confidence ppf x 0 alpha tau = Return None.
Proof.
  unfold confidence.
  destruct (Req_dec_T 0 0) as [_ | N]; [reflexivity | now elim N].
Qed.

Lemma confidence_zero_x (x y alpha tau : R) :
  x = 0 -> y <> 0 ->
  confidence ppf x y alpha tau =
  Return (Some (1 - (1 - np.power alpha (1 / (x + y)))
                    / (tau * np.power alpha (1 / (x + y))),
                1 - np.power alpha (1 / (x + y)))).
Proof.
  intros Hx Hy. unfold confidence.
  destruct (Req_dec_T y 0) as [E | _]; [contradiction |].
  assert (Hn : x + y <> 0) by (rewrite Hx, Rplus_0_l; exact Hy).
  rewrite !float_div_nonzero by exact Hn. cbn [bind].
  destruct (Req_dec_T x 0) as [_ | N]; [reflexivity | contradiction].
Qed.

Lemma confidence_general (x y alpha tau : R) :
  x <> 0 -> y <> 0 -> x + y <> 0 ->
  confidence ppf x y alpha tau =
  Return (Some (risk_bounds tau
                  (fst (proportion_bounds x (x + y) (x / (x + y))
                          (ppf (alpha / 2))))
                  (snd (proportion_bounds x (x + y) (x / (x + y))
                          (ppf (alpha / 2)))))).
Proof.
  intros Hx Hy Hn. unfold confidence.
  destruct (Req_dec_T y 0) as [E | _]; [contradiction |].
  rewrite float_div_nonzero by exact Hn. cbn [bind].
  destruct (Req_dec_T x 0) as [E | _]; [contradiction |].
  reflexivity.
Qed.

End ConfidencePaths.

(** C8.  Whatever [x], [alpha] and [tau] are, [confidence x 0 alpha tau]
    returns [None]: not a pair, not a number, not an exception; so it does for
    [x = 10]. *)
Theorem confidence_undefined_without_y (ppf : R -> R) (x alpha tau : R) :
  confidence ppf x 0 alpha tau = Return None
  /\ (forall p : R * R, confidence ppf x 0 alpha tau <> Return (Some p))
  /\ (forall e : exn, confidence ppf x 0 alpha tau <> Raise e)
  /\ confidence ppf 10 0 alpha tau = Return None.
Proof.
  rewrite !confidence_zero_y. repeat split; intros; discriminate.
Qed.

(** C10.  For [x >= 0] and [y >= 0] the division [q = x / n] never divides by
    zero: with [y = 0] the guard returns [None] before it, and otherwise
    [n = x + y >= y > 0], so the division returns and [confidence] raises
    nothing. *)
Theorem confidence_q_division_safe (ppf : R -> R) (x y alpha tau : R) :
  0 <= x -> 0 <= y ->
  (y = 0 -> confidence ppf x y alpha tau = Return None)
  /\ (y <> 0 ->
      0 < y <= x + y /\ float_div x (x + y) = Return (x / (x + y)))
  /\ (forall e : exn, confidence ppf x y alpha tau <> Raise e).
Proof.
  intros Hx Hy. split; [| split].
  - intros ->. apply confidence_zero_y.
  - intros Hy0. split; [lra |]. apply float_div_nonzero. lra.
  - intros e. destruct (Req_dec_T y 0) as [-> | Hy0].
    + rewrite confidence_zero_y. discriminate.
    + destruct (Req_dec_T x 0) as [Hx0 | Hx0].
      * rewrite confidence_zero_x by assumption. discriminate.
      * rewrite confidence_general by (try assumption; lra). discriminate.
Qed.

Lemma confidence_q_division_safe_witness :
  (3 = 0 -> confidence (fun _ => 0) 2 3 (1 / 2) 1 = Return None)
  /\ (3 <> 0 -> 0 < 3 <= 2 + 3 /\ float_div 2 (2 + 3) = Return (2 / (2 + 3)))
  /\ (forall e : exn, confidence (fun _ => 0) 2 3 (1 / 2) 1 <> Raise e).
Proof.
  apply (confidence_q_division_safe (fun _ => 0) 2 3 (1 / 2) 1); lra.
Defined.

(** Without [0 <= x] the guard on [y] is not enough: [x = -1], [y = 1]. *)
Lemma confidence_negative_x_raises (ppf : R -> R) (alpha tau : R) :
  confidence ppf (-1) 1 alpha tau = Raise ZeroDivisionError.
Proof.
  unfold confidence.
  destruct (Req_dec_T 1 0) as [E | _]; [lra |].
  replace (-1 + 1) with 0 by ring. rewrite float_div_zero. reflexivity.
Qed.

(** C5.  With [x = 0] and [y > 0], [confidence] returns the pair with
    [p_U = 1 - alpha^(1/n)] and
    [p_L = 1 - (1 - alpha^(1/n)) / (tau * alpha^(1/n))], [n = x + y]; the
    quantile function of the general branch plays no part in it. *)
Theorem confidence_zero_x_pair (ppf : R -> R) (x y alpha tau : R) :
  x = 0 -> 0 < y ->
  let n := x + y in
  let p_U := 1 - np.power alpha (1 / n) in
  let p_L :=
    1 - (1 - np.power alpha (1 / n)) / (tau * np.power alpha (1 / n)) in
  confidence ppf x y alpha tau = Return (Some (p_L, p_U))
  /\ (forall ppf' : R -> R,
         confidence ppf' x y alpha tau = confidence ppf x y alpha tau).
Proof.
  intros Hx Hy n p_U p_L. subst n p_U p_L.
  assert (Hy0 : y <> 0) by lra.
  split.
  - now apply confidence_zero_x.
  - intros ppf'. now rewrite !confidence_zero_x.
Qed.

Lemma confidence_zero_x_pair_witness :
  confidence (fun _ => 0) 0 10 (1 / 2) 2 =
  Return (Some (1 - (1 - np.power (1 / 2) (1 / (0 + 10)))
                    / (2 * np.power (1 / 2) (1 / (0 + 10))),
                1 - np.power (1 / 2) (1 / (0 + 10)))).
Proof.
  apply (confidence_zero_x_pair (fun _ => 0) 0 10 (1 / 2) 2);
    [reflexivity | lra].
Defined.

(** ** Roots computed by [np.power] *)

Lemma np_power_pos (a b : R) : 0 < np.power a b.
Proof. unfold np.power, Rpower. apply exp_pos. Qed.

Lemma np_power_lt_1 (a b : R) : 0 < a < 1 -> 0 < b -> np.power a b < 1.
Proof.
  intros [Ha0 Ha1] Hb. unfold np.power, Rpower.
  rewrite <- exp_0. apply exp_increasing.
  pose proof (ln_increasing a 1 Ha0 Ha1) as H. rewrite ln_1 in H. nra.
Qed.

(** [np.power a (1/k)] is the [k]-th root of [a]. *)
Lemma np_power_root (a : R) (k : nat) :
  0 < a -> (0 < k)%nat -> np.power a (1 / INR k) ^ k = a.
Proof.
  intros Ha Hk. unfold np.power.
  rewrite <- Rpower_pow by (unfold Rpower; apply exp_pos).
  rewrite Rpower_mult.
  replace (1 / INR k * INR k) with 1.
  - now apply Rpower_1.
  - field. apply not_0_INR. lia.
Qed.

(** A positive number is located by its [k]-th power. *)
Lemma root_between (t lo hi c : R) (k : nat) :
  0 <= lo -> 0 <= hi -> 0 < t ->
  lo ^ k < c -> c < hi ^ k -> t ^ k = c -> lo < t < hi.
Proof.
  intros Hlo Hhi Ht Hl Hh E. split.
  - destruct (Rlt_le_dec lo t) as [H | H]; [exact H | exfalso].
    assert (t ^ k <= lo ^ k) by (apply pow_incr; lra). lra.
  - destruct (Rlt_le_dec t hi) as [H | H]; [exact H | exfalso].
    assert (hi ^ k <= t ^ k) by (apply pow_incr; lra). lra.
Qed.

(** The tenth root of 0.05 lies between 0.7411 and 0.7412. *)
Lemma tenth_root_of_alpha :
  7411 / 10000 < np.power (5 / 100) (1 / (0 + 10)) < 7412 / 10000.
Proof.
  replace (1 / (0 + 10)) with (1 / INR 10) by (simpl; field).
  apply (root_between _ _ _ (5 / 100) 10).
  - lra.
  - lra.
  - apply np_power_pos.
  - lra.
  - lra.
  - apply np_power_root; [lra | lia].
Qed.

(** ** The scenario [x = 0], [y = 10], [tau = 2], [alpha = 0.05] *)

Lemma confidence_scenario_pair (ppf : R -> R) :
  let t := np.power (5 / 100) (1 / 10) in
  confidence ppf 0 10 (5 / 100) 2 =
  Return (Some (1 - (1 - t) / (2 * t), 1 - t)).
Proof.
  intros t. subst t. rewrite confidence_zero_x by lra.
  replace (1 / (0 + 10)) with (1 / 10) by field. reflexivity.
Qed.

Lemma scenario_values (t : R) :
  7411 / 10000 < t < 7412 / 10000 ->
  2588 / 10000 < 1 - t < 2589 / 10000
  /\ 8253 / 10000 < 1 - (1 - t) / (2 * t) < 8255 / 10000.
Proof.
  intros [Hl Hh]. split; [lra |].
  set (d := (1 - t) / (2 * t)).
  assert (E : d * (2 * t) = 1 - t) by (unfold d; field; lra).
  split; nra.
Qed.

(** C3, as stated, fails: the pair returned for this input is neither near
    0.741 in its upper component nor near -0.129 in its lower one. *)
Lemma confidence_scenario_not_as_stated :
  exists p_L p_U : R,
    (forall ppf : R -> R,
        confidence ppf 0 10 (5 / 100) 2 = Return (Some (p_L, p_U)))
    /\ ~ Rabs (p_U - 741 / 1000) <= 5 / 10000
    /\ ~ Rabs (p_L - - (129 / 1000)) <= 5 / 10000.
Proof.
  set (t := np.power (5 / 100) (1 / 10)).
  exists (1 - (1 - t) / (2 * t)), (1 - t).
  assert (B : 7411 / 10000 < t < 7412 / 10000).
  { unfold t. replace (1 / 10) with (1 / (0 + 10)) by field.
    apply tenth_root_of_alpha. }
  destruct (scenario_values t B) as [[U1 U2] [L1 L2]].
  split; [| split].
  - intros ppf. apply confidence_scenario_pair.
  - intros H. unfold Rabs in H. destruct (Rcase_abs _) in H; lra.
  - intros H. unfold Rabs in H. destruct (Rcase_abs _) in H; lra.
Qed.

(** C3, amended.  For [x = 0], [y = 10], [tau = 2], [alpha = 0.05],
    [confidence] takes the [x == 0] branch and returns
    [p_U = 1 - 0.05^(1/10)] and
    [p_L = 1 - (1 - 0.05^(1/10)) / (2 * 0.05^(1/10))]; to three significant
    figures these are 0.259 and 0.825. *)
Theorem confidence_scenario_zero_x (ppf : R -> R) :
  let t := np.power (5 / 100) (1 / 10) in
  let p_U := 1 - t in
  let p_L := 1 - (1 - t) / (2 * t) in
  confidence ppf 0 10 (5 / 100) 2 = Return (Some (p_L, p_U))
  /\ Rabs (p_U - 259 / 1000) <= 5 / 10000
  /\ Rabs (p_L - 825 / 1000) <= 5 / 10000.
Proof.
  intros t p_U p_L.
  assert (B : 7411 / 10000 < t < 7412 / 10000).
  { unfold t. replace (1 / 10) with (1 / (0 + 10)) by field.
    apply tenth_root_of_alpha. }
  destruct (scenario_values t B) as [[U1 U2] [L1 L2]].
  split; [| split].
  - apply confidence_scenario_pair.
  - apply Rabs_le. unfold p_U. lra.
  - apply Rabs_le. unfold p_L. lra.
Qed.

(** ** Ordering of the returned pair *)

(** C1.  The pair returned by the [x == 0] branch is not ordered: for the
    valid input [x = 0], [y = 1], [tau = 4], [alpha = 1/2] it is
    [(3/4, 1/2)], so [p_L > p_U]. *)
Lemma confidence_zero_x_unordered :
  (forall ppf : R -> R,
      confidence ppf 0 1 (1 / 2) 4 = Return (Some (3 / 4, 1 / 2)))
  /\ 0 < 1 /\ 0 < 4 /\ 0 < 1 / 2 < 1
  /\ ~ (3 / 4 <= 1 / 2).
Proof.
  split; [| lra].
  intros ppf. rewrite confidence_zero_x by lra.
  replace (1 / (0 + 1)) with 1 by field.
  unfold np.power. rewrite Rpower_1 by lra.
  do 2 f_equal. f_equal; field.
Qed.

(** ** The proportion bounds of the general branch *)

Section ProportionBounds.

Variables x y z : R.
Hypothesis x_pos : 0 < x.
Hypothesis y_pos : 0 < y.

Let n := x + y.
Let q := x / n.
Let N := n + z * z.
Let D := q * (1 - q) + z * z / (4 * n).
Let a := (x + z * z / 2) / N.
Let s := z * np.sqrt n / N * np.sqrt D.

Lemma bounds_eq : proportion_bounds x n q z = (a - s, a + s).
Proof. reflexivity. Qed.

Lemma n_pos : 0 < n.
Proof. unfold n. lra. Qed.

Lemma N_pos : 0 < N.
Proof. unfold N. pose proof n_pos. nra. Qed.

Lemma D_pos : 0 < D.
Proof.
  pose proof n_pos as Hn. unfold D.
  assert (0 < q * (1 - q)).
  { replace (q * (1 - q)) with (x * y / (n * n)) by (unfold q, n; field; lra).
    apply Rdiv_lt_0_compat; nra. }
  assert (0 <= z * z / (4 * n)).
  { apply Rmult_le_pos; [nra |]. apply Rlt_le, Rinv_0_lt_compat. lra. }
  lra.
Qed.

Lemma s_square : s * s = z * z * n * D / (N * N).
Proof.
  pose proof n_pos. pose proof N_pos. pose proof D_pos.
  unfold s, np.sqrt.
  replace (z * sqrt n / N * sqrt D * (z * sqrt n / N * sqrt D))
    with (z * z * (sqrt n * sqrt n) * (sqrt D * sqrt D) / (N * N))
    by (field; lra).
  rewrite !sqrt_sqrt by lra. reflexivity.
Qed.

(** The product of the two bounds. *)
Lemma a_s_squares : a * a - s * s = x * x / (n * N).
Proof.
  pose proof n_pos. pose proof N_pos.
  rewrite s_square. unfold a, D, q. fold n. unfold N. field.
  unfold N in *. lra.
Qed.

Lemma a_s_squares' : (1 - a) * (1 - a) - s * s = y * y / (n * N).
Proof.
  pose proof n_pos. pose proof N_pos.
  rewrite s_square. unfold a, D, q, N, n. field.
  unfold N, n in *. lra.
Qed.

Lemma a_bounds : 0 < a < 1.
Proof.
  pose proof n_pos. pose proof N_pos.
  assert (E : a * N = x + z * z / 2) by (unfold a; field; lra).
  assert (0 < a).
  { unfold a. apply Rdiv_lt_0_compat; [nra | assumption]. }
  split; [assumption |].
  assert (E' : (1 - a) * N = y + z * z / 2) by (unfold N, n in *; lra).
  assert (0 < (1 - a) * N) by nra.
  destruct (Rlt_le_dec a 1) as [P | P]; [exact P | exfalso]. nra.
Qed.

Lemma between_by_square (c d : R) : 0 < c -> 0 < c * c - d * d -> - c < d < c.
Proof. intros Hc Hd. split; nra. Qed.

(** Both bounds are proper proportions. *)
Lemma bounds_in_unit : 0 < a - s /\ a + s < 1 /\ 0 < a + s /\ a - s < 1.
Proof.
  pose proof n_pos. pose proof N_pos. pose proof a_bounds as [A0 A1].
  assert (P : 0 < n * N) by nra.
  destruct (between_by_square a s A0).
  { rewrite a_s_squares. apply Rdiv_lt_0_compat; nra. }
  destruct (between_by_square (1 - a) s); [lra | |].
  { rewrite a_s_squares'. apply Rdiv_lt_0_compat; nra. }
  lra.
Qed.

(** Both bounds solve the score equation
    [(n + z^2) p^2 - (2 x + z^2) p + x^2 / n = 0]. *)
Lemma bounds_are_roots (p : R) :
  p = a - s \/ p = a + s ->
  N * (p * p) - (2 * x + z * z) * p + x * x / n = 0.
Proof.
  pose proof n_pos. pose proof N_pos.
  assert (E : 2 * x + z * z = 2 * a * N) by (unfold a; field; lra).
  assert (F : x * x / n = N * (a * a - s * s)).
  { rewrite a_s_squares. field. lra. }
  intros [-> | ->]; rewrite E, F; ring.
Qed.

(** The sign of the quantile decides which bound is the larger. *)
Lemma s_negative : z < 0 -> s < 0.
Proof.
  intros Hz. pose proof n_pos. pose proof N_pos. pose proof D_pos.
  assert (0 < sqrt n) by (apply sqrt_lt_R0; assumption).
  assert (0 < sqrt D) by (apply sqrt_lt_R0; assumption).
  assert (0 < / N) by (apply Rinv_0_lt_compat; assumption).
  unfold s, np.sqrt, Rdiv.
  assert (z * sqrt n < 0) by nra.
  assert (z * sqrt n * / N < 0) by nra.
  nra.
Qed.

End ProportionBounds.

(** ** The general branch under a quantile function *)

Section NormalQuantile.

(** The standard normal distribution function and [norm.ppf], its inverse
    on (0, 1). *)
Variables Phi ppf : R -> R.
Hypothesis Phi_increasing : forall s t : R, s < t -> Phi s < Phi t.
Hypothesis Phi_median : Phi 0 = 1 / 2.
Hypothesis ppf_inverse : forall p : R, 0 < p < 1 -> Phi (ppf p) = p.

Lemma lower_tail_quantile_negative (alpha : R) :
  0 < alpha < 1 -> ppf (alpha / 2) < 0.
Proof.
  intros Ha.
  assert (E : Phi (ppf (alpha / 2)) = alpha / 2) by (apply ppf_inverse; lra).
  destruct (Rtotal_order (ppf (alpha / 2)) 0) as [H | [H | H]].
  - exact H.
  - rewrite H, Phi_median in E. lra.
  - apply Phi_increasing in H. rewrite Phi_median, E in H. lra.
Qed.

(** C9.  In the general branch ([x > 0], [y > 0], [0 < alpha < 1]) the
    quantile [z = ppf (alpha / 2)] is negative, and so of the two proportion
    bounds, which are the two roots of the score equation, [L = a - b * det]
    is the larger and [U = a + b * det] the smaller: [L >= U]. *)
Theorem general_branch_bounds_swapped (x y alpha tau : R) :
  0 < x -> 0 < y -> 0 < alpha < 1 ->
  let n := x + y in
  let z := ppf (alpha / 2) in
  let L := fst (proportion_bounds x n (x / n) z) in
  let U := snd (proportion_bounds x n (x / n) z) in
  confidence ppf x y alpha tau = Return (Some (risk_bounds tau L U))
  /\ z < 0
  /\ L >= U
  /\ (forall p : R,
         p = L \/ p = U ->
         (n + z * z) * (p * p) - (2 * x + z * z) * p + x * x / n = 0).
Proof.
  intros Hx Hy Ha n z L U.
  assert (Hz : z < 0) by (apply lower_tail_quantile_negative; exact Ha).
  split; [| split; [| split]].
  - apply confidence_general; unfold n; lra.
  - exact Hz.
  - pose proof (s_negative x y z Hx Hy Hz) as Hs.
    unfold L, U, n. rewrite bounds_eq. cbn [fst snd]. lra.
  - intros p Hp. apply (bounds_are_roots x y z Hx Hy p).
    unfold L, U, n in Hp. rewrite bounds_eq in Hp. exact Hp.
Qed.

End NormalQuantile.

(** ** The logistic quantile function meets the section's assumptions *)

Lemma logistic_cdf_increasing (s t : R) :
  s < t -> logistic_cdf s < logistic_cdf t.
Proof.
  intros H. unfold logistic_cdf.
  assert (exp (- t) < exp (- s)) by (apply exp_increasing; lra).
  pose proof (exp_pos (- t)). pose proof (exp_pos (- s)).
  unfold Rdiv. rewrite !Rmult_1_l.
  apply Rinv_0_lt_contravar; lra.
Qed.

Lemma logistic_cdf_median : logistic_cdf 0 = 1 / 2.
Proof. unfold logistic_cdf. rewrite Ropp_0, exp_0. field. Qed.

Lemma logistic_ppf_inverse (p : R) :
  0 < p < 1 -> logistic_cdf (logistic_ppf p) = p.
Proof.
  intros [H0 H1]. unfold logistic_cdf, logistic_ppf.
  assert (0 < p / (1 - p)) by (apply Rdiv_lt_0_compat; lra).
  rewrite exp_Ropp, exp_ln by assumption. field. lra.
Qed.

Lemma general_branch_bounds_swapped_witness :
  let n := 1 + 1 in
  let z := logistic_ppf (1 / 2 / 2) in
  let L := fst (proportion_bounds 1 n (1 / n) z) in
  let U := snd (proportion_bounds 1 n (1 / n) z) in
  confidence logistic_ppf 1 1 (1 / 2) 1 = Return (Some (risk_bounds 1 L U))
  /\ z < 0
  /\ L >= U
  /\ (forall p : R,
         p = L \/ p = U ->
         (n + z * z) * (p * p) - (2 * 1 + z * z) * p + 1 * 1 / n = 0).
Proof.
  apply (general_branch_bounds_swapped logistic_cdf logistic_ppf
           logistic_cdf_increasing logistic_cdf_median logistic_ppf_inverse
           1 1 (1 / 2) 1); lra.
Defined.

(** ** jointProb *)

Lemma num_div_zero (a b : num) :
  to_float b = 0 -> num_div a b = Raise ZeroDivisionError.
Proof.
  intros Hb.
  assert (F : bind (float_div (to_float a) (to_float b))
                (fun r : R => Return (Float r))
              = Raise ZeroDivisionError).
  { rewrite Hb, float_div_zero. reflexivity. }
  destruct a as [p | r], b as [q | s]; try exact F.
  cbn [to_float] in Hb. apply eq_IZR_R0 in Hb. unfold num_div.
  destruct (Z.eq_dec q 0) as [_ | N]; [reflexivity | contradiction].
Qed.

Lemma num_div_nonzero (a b : num) :
  to_float b <> 0 -> exists t : num, num_div a b = Return t.
Proof.
  intros Hb.
  assert (F : exists t : num,
             bind (float_div (to_float a) (to_float b))
               (fun r : R => Return (Float r))
             = Return t).
  { rewrite float_div_nonzero by exact Hb. eexists. reflexivity. }
  destruct a as [p | r], b as [q | s]; try exact F.
  unfold num_div. destruct (Z.eq_dec q 0) as [E | _].
  - elim Hb. rewrite E. reflexivity.
  - eexists. reflexivity.
Qed.

(** The division [T1 / T2] comes first, the factorial second. *)
Lemma jointProb_zero_T2 (x y : nat) (mu beta : R) (T1 T2 : num) :
  to_float T2 = 0 -> jointProb x y mu beta T1 T2 = Raise ZeroDivisionError.
Proof.
  intros H. unfold jointProb. rewrite (num_div_zero T1 T2 H). reflexivity.
Qed.

Lemma jointProb_nonzero_T2 (x y : nat) (mu beta : R) (T1 T2 : num) :
  to_float T2 <> 0 -> jointProb x y mu beta T1 T2 = Raise AttributeError.
Proof.
  intros H. unfold jointProb.
  destruct (num_div_nonzero T1 T2 H) as [tau E]. rewrite E. reflexivity.
Qed.

Lemma py_sum_raises (f : nat -> py R) (e : exn) (k : nat) :
  (forall i : nat, f i = Raise e) -> py_sum f k = Raise e.
Proof.
  intros H. induction k as [| k IH]; cbn [py_sum].
  - apply H.
  - rewrite IH. reflexivity.
Qed.

(** C6.  As written, [jointProb] does not return
    [P_total (x + y) * P_split (x | x + y)]: once [T1 / T2] is computed
    ([T2 <> 0]) it evaluates [np.misc.factorial] and raises
    [AttributeError], whatever the counts and the positive parameters. *)
Theorem jointProb_raises_attribute_error
    (x y : nat) (mu beta : R) (T1 T2 : num) :
  to_float T2 <> 0 ->
  jointProb x y mu beta T1 T2 = Raise AttributeError
  /\ jointProb x y mu beta T1 T2
     <> Return (P_total mu beta (to_float T1) (to_float T2) (x + y)
                * P_split beta (to_float T1) (to_float T2) x (x + y)).
Proof.
  intros H. rewrite (jointProb_nonzero_T2 x y mu beta T1 T2 H).
  split; [reflexivity | discriminate].
Qed.

Lemma jointProb_raises_attribute_error_witness :
  jointProb 2 3 (1 / 2) (3 / 2) (Int 20) (Int 10) = Raise AttributeError
  /\ jointProb 2 3 (1 / 2) (3 / 2) (Int 20) (Int 10)
     <> Return (P_total (1 / 2) (3 / 2) (to_float (Int 20))
                  (to_float (Int 10)) (2 + 3)
                * P_split (3 / 2) (to_float (Int 20)) (to_float (Int 10))
                    2 (2 + 3)).
Proof.
  apply (jointProb_raises_attribute_error 2 3 (1 / 2) (3 / 2)
           (Int 20) (Int 10)).
  cbn [to_float]. lra.
Defined.

(** C7.  As written, [jointProb] returns no value at all, so none between 0
    and 1, and the sum of [jointProb x (n - x)] over [x = 0 .. n] is not
    [P_total n]: with [T2 <> 0] every call, and with it the sum, raises
    [AttributeError]. *)
Theorem jointProb_sum_raises (mu beta : R) (T1 T2 : num) (n : nat) :
  to_float T2 <> 0 ->
  (forall (x y : nat) (p : R), jointProb x y mu beta T1 T2 <> Return p)
  /\ py_sum (fun x : nat => jointProb x (n - x) mu beta T1 T2) n
     = Raise AttributeError
  /\ py_sum (fun x : nat => jointProb x (n - x) mu beta T1 T2) n
     <> Return (P_total mu beta (to_float T1) (to_float T2) n).
Proof.
  intros H.
  assert (S : py_sum (fun x : nat => jointProb x (n - x) mu beta T1 T2) n
              = Raise AttributeError).
  { apply py_sum_raises. intros i. apply jointProb_nonzero_T2, H. }
  split; [| split].
  - intros x y p. rewrite (jointProb_nonzero_T2 x y mu beta T1 T2 H).
    discriminate.
  - exact S.
  - rewrite S. discriminate.
Qed.

Lemma jointProb_sum_raises_witness :
  (forall (x y : nat) (p : R),
      jointProb x y (1 / 2) (3 / 2) (Float 20) (Float 10) <> Return p)
  /\ py_sum
       (fun x : nat => jointProb x (5 - x) (1 / 2) (3 / 2) (Float 20)
                         (Float 10)) 5
     = Raise AttributeError
  /\ py_sum
       (fun x : nat => jointProb x (5 - x) (1 / 2) (3 / 2) (Float 20)
                         (Float 10)) 5
     <> Return (P_total (1 / 2) (3 / 2) (to_float (Float 20))
                  (to_float (Float 10)) 5).
Proof.
  apply (jointProb_sum_raises (1 / 2) (3 / 2) (Float 20) (Float 10) 5).
  cbn [to_float]. lra.
Defined.

(** * Further properties *)

(** ** make_segments *)

Section Segments.

Context {A : Type}.

Lemma removelast_map {B : Type} (f : A -> B) (l : list A) :
  removelast (map f l) = map f (removelast l).
Proof.
  induction l as [| a [| b l] IH]; try reflexivity.
  cbn [map removelast] in *. now rewrite IH.
Qed.

Lemma tl_map {B : Type} (f : A -> B) (l : list A) : tl (map f l) = map f (tl l).
Proof. destruct l; reflexivity. Qed.

Lemma concatenate_singletons (l1 l2 : list A) :
  concatenate_axis1 (map (fun p => [p]) l1) (map (fun p => [p]) l2)
  = map pair_row (combine l1 l2).
Proof.
  revert l2. induction l1 as [| a l1 IH]; intros [| b l2]; try reflexivity.
  cbn. now rewrite IH.
Qed.

Lemma steps_cons (a b : A) (l : list A) :
  steps (a :: b :: l) = (a, b) :: steps (b :: l).
Proof. reflexivity. Qed.

Lemma steps_length (l : list A) : length (steps l) = (length l - 1)%nat.
Proof.
  induction l as [| a [| b l] IH]; try reflexivity.
  rewrite steps_cons. cbn [length] in *. lia.
Qed.

Lemma steps_nth (l : list A) (i : nat) (d : A) :
  (S i < length l)%nat ->
  nth i (steps l) (d, d) = (nth i l d, nth (S i) l d).
Proof.
  revert i. induction l as [| a [| b l] IH]; intros i Hi.
  - cbn in Hi. lia.
  - cbn in Hi. lia.
  - rewrite steps_cons. destruct i as [| i]; [reflexivity |].
    cbn [nth]. rewrite IH by (cbn [length] in *; lia). reflexivity.
Qed.

Lemma steps_starts (l : list A) : map fst (steps l) = removelast l.
Proof.
  induction l as [| a [| b l] IH]; try reflexivity.
  rewrite steps_cons. cbn [map fst]. rewrite IH. reflexivity.
Qed.

Lemma steps_ends (l : list A) : map snd (steps l) = tl l.
Proof.
  induction l as [| a [| b l] IH]; try reflexivity.
  rewrite steps_cons. cbn [map snd]. rewrite IH. reflexivity.
Qed.

End Segments.

Lemma make_segments_steps (x y : list R) :
  make_segments x y = map pair_row (steps (combine x y)).
Proof.
  unfold make_segments, track_points, steps. cbv zeta.
  rewrite removelast_map, tl_map. apply concatenate_singletons.
Qed.

(** X1.  For coordinate lists of one length [n], [make_segments] gives
    [n - 1] segments of exactly two points each; an empty track and a track
    of one point give no segment. *)
Theorem make_segments_count (x y : list R) :
  length x = length y ->
  length (make_segments x y) = (length x - 1)%nat
  /\ Forall (fun seg : list point => length seg = 2%nat) (make_segments x y)
  /\ ((length x <= 1)%nat -> make_segments x y = []).
Proof.
  intros E.
  assert (Hl : length (make_segments x y) = (length x - 1)%nat).
  { rewrite make_segments_steps.
    rewrite length_map, steps_length, length_combine, <- E, Nat.min_id.
    reflexivity. }
  split; [exact Hl | split].
  - rewrite make_segments_steps.
    apply Forall_forall. intros seg Hin. apply in_map_iff in Hin.
    destruct Hin as (pq & <- & _). reflexivity.
  - intros Hn. apply length_zero_iff_nil. rewrite Hl. lia.
Qed.

Lemma make_segments_count_witness :
  length (make_segments [1; 2; 4] [0; 3; 5]) = (length [1; 2; 4] - 1)%nat
  /\ Forall (fun seg : list point => length seg = 2%nat)
       (make_segments [1; 2; 4] [0; 3; 5])
  /\ ((length [1; 2; 4] <= 1)%nat -> make_segments [1; 2; 4] [0; 3; 5] = []).
Proof.
  apply (make_segments_count [1; 2; 4] [0; 3; 5]). reflexivity.
Defined.

(** X2.  The [i]-th segment joins the [i]-th track point to the next one:
    it is [[(x_i, y_i); (x_(i+1), y_(i+1))]]. *)
Theorem make_segments_nth (x y : list R) (i : nat) :
  length x = length y -> (S i < length x)%nat ->
  nth i (make_segments x y) []
  = [(nth i x 0, nth i y 0); (nth (S i) x 0, nth (S i) y 0)].
Proof.
  intros E Hi.
  assert (Hc : length (combine x y) = length x)
    by (rewrite length_combine, <- E, Nat.min_id; reflexivity).
  rewrite make_segments_steps.
  rewrite (nth_indep _ [] (pair_row ((0, 0), (0, 0))))
    by (rewrite length_map, steps_length, Hc; lia).
  rewrite map_nth, steps_nth by (rewrite Hc; exact Hi).
  rewrite !combine_nth by exact E. reflexivity.
Qed.

Lemma make_segments_nth_witness :
  nth 1 (make_segments [1; 2; 4] [0; 3; 5]) []
  = [(nth 1 [1; 2; 4] 0, nth 1 [0; 3; 5] 0);
     (nth 2 [1; 2; 4] 0, nth 2 [0; 3; 5] 0)].
Proof.
  apply (make_segments_nth [1; 2; 4] [0; 3; 5] 1); [reflexivity | cbn; lia].
Defined.

(** X3.  The segments retrace the track: their first points are all track
    points but the last, their second points all track points but the first;
    so each segment starts where the one before it ends. *)
Theorem make_segments_chain (x y : list R) :
  length x = length y ->
  let segments := make_segments x y in
  let d : point := (0, 0) in
  map (fun seg => nth 0 seg d) segments = removelast (combine x y)
  /\ map (fun seg => nth 1 seg d) segments = tl (combine x y)
  /\ (forall i : nat,
         (S i < length segments)%nat ->
         nth 1 (nth i segments []) d = nth 0 (nth (S i) segments []) d).
Proof.
  intros E segments d.
  assert (Hc : length (combine x y) = length x)
    by (rewrite length_combine, <- E, Nat.min_id; reflexivity).
  assert (H0 : map (fun seg => nth 0 seg d) segments
               = removelast (combine x y)).
  { unfold segments. rewrite make_segments_steps, map_map.
    cbn [pair_row nth]. apply steps_starts. }
  assert (H1 : map (fun seg => nth 1 seg d) segments = tl (combine x y)).
  { unfold segments. rewrite make_segments_steps, map_map.
    cbn [pair_row nth]. apply steps_ends. }
  split; [exact H0 | split; [exact H1 |]].
  intros i Hi.
  assert (Hl : length segments = (length x - 1)%nat).
  { unfold segments.
    rewrite make_segments_steps, length_map, steps_length, Hc. reflexivity. }
  assert (G : forall j : nat,
             (S j < length x)%nat ->
             nth j segments []
             = pair_row (nth j (steps (combine x y)) (d, d))).
  { intros j Hj. unfold segments. rewrite make_segments_steps.
    rewrite (nth_indep _ [] (pair_row (d, d)))
      by (rewrite length_map, steps_length, Hc; lia).
    apply map_nth. }
  rewrite !G by lia.
  rewrite !steps_nth by (rewrite Hc; lia). reflexivity.
Qed.

Lemma make_segments_chain_witness :
  let segments := make_segments [1; 2; 4] [0; 3; 5] in
  let d : point := (0, 0) in
  map (fun seg => nth 0 seg d) segments
  = removelast (combine [1; 2; 4] [0; 3; 5])
  /\ map (fun seg => nth 1 seg d) segments = tl (combine [1; 2; 4] [0; 3; 5])
  /\ (forall i : nat,
         (S i < length segments)%nat ->
         nth 1 (nth i segments []) d = nth 0 (nth (S i) segments []) d).
Proof.
  apply (make_segments_chain [1; 2; 4] [0; 3; 5]). reflexivity.
Defined.

(** ** attributable: errors and range *)

(** X4.  [attributable] has no guard of its own: with [tau = 0] or [y = 0]
    it raises [ZeroDivisionError]; whenever it returns, neither is zero and
    the result is [1 - x / (tau * y)]. *)
Theorem attributable_unguarded (x y tau : R) :
  (tau = 0 \/ y = 0 -> attributable x y tau = Raise ZeroDivisionError)
  /\ (forall p : R,
         attributable x y tau = Return p ->
         tau <> 0 /\ y <> 0 /\ p = 1 - x / (tau * y)).
Proof.
  assert (Z : tau = 0 \/ y = 0 ->
              attributable x y tau = Raise ZeroDivisionError).
  { intros H. unfold attributable.
    replace (tau * y) with 0 by (destruct H as [-> | ->]; ring).
    rewrite float_div_zero. reflexivity. }
  split; [exact Z |].
  intros p Hp.
  assert (Ht : tau <> 0).
  { intros E. rewrite Z in Hp by (left; exact E). discriminate Hp. }
  assert (Hy : y <> 0).
  { intros E. rewrite Z in Hp by (right; exact E). discriminate Hp. }
  split; [exact Ht | split; [exact Hy |]].
  unfold attributable in Hp.
  destruct (float_div x (tau * y)) as [r |] eqn:E; [| discriminate Hp].
  apply float_div_returns in E. destruct E as [_ ->].
  cbn [bind] in Hp. injection Hp as <-. reflexivity.
Qed.

Lemma attributable_unguarded_witness :
  attributable 10 0 2 = Raise ZeroDivisionError.
Proof.
  apply (proj1 (attributable_unguarded 10 0 2)). right. reflexivity.
Defined.

(** X5.  For [x >= 0], [y > 0] and [tau > 0] the attributable risk is at most
    1, it is 1 exactly when no event was counted before the change
    ([x = 0]), and it is non-negative exactly when [x <= tau * y]. *)
Theorem attributable_range (x y tau : R) :
  0 <= x -> 0 < y -> 0 < tau ->
  exists p : R,
    attributable x y tau = Return p
    /\ p <= 1
    /\ (p = 1 <-> x = 0)
    /\ (0 <= p <-> x <= tau * y).
Proof.
  intros Hx Hy Ht. exists (1 - x / (tau * y)).
  assert (P : 0 < tau * y) by (apply Rmult_lt_0_compat; assumption).
  split.
  { unfold attributable. rewrite float_div_nonzero by lra. reflexivity. }
  assert (E : x / (tau * y) * (tau * y) = x) by (field; lra).
  generalize dependent (x / (tau * y)). intros r E.
  assert (Hr : 0 <= r).
  { destruct (Rle_lt_dec 0 r) as [Q | Q]; [exact Q | exfalso].
    assert (r * (tau * y) < 0 * (tau * y))
      by (apply Rmult_lt_compat_r; assumption).
    lra. }
  split; [lra | split; split; intros H].
  - assert (r = 0) by lra. subst r. lra.
  - rewrite H in E. assert (r = 0); [| lra].
    apply Rmult_integral in E. destruct E; lra.
  - assert (r * (tau * y) <= 1 * (tau * y))
      by (apply Rmult_le_compat_r; lra).
    lra.
  - assert (r <= 1); [| lra].
    apply (Rmult_le_reg_r (tau * y)); [exact P | lra].
Qed.

Lemma attributable_range_witness :
  exists p : R,
    attributable 10 20 1 = Return p
    /\ p <= 1
    /\ (p = 1 <-> 10 = 0)
    /\ (0 <= p <-> 10 <= 1 * 20).
Proof.
  apply (attributable_range 10 20 1); lra.
Defined.

(** ** confidence: the three outcomes *)

Lemma confidence_raises (ppf : R -> R) (x y alpha tau : R) :
  y <> 0 -> x + y = 0 ->
  confidence ppf x y alpha tau = Raise ZeroDivisionError.
Proof.
  intros Hy En. unfold confidence.
  destruct (Req_dec_T y 0) as [E | _]; [contradiction |].
  rewrite En, float_div_zero. reflexivity.
Qed.

Lemma confidence_returns_pair (ppf : R -> R) (x y alpha tau : R) :
  y <> 0 -> x + y <> 0 ->
  exists p : R * R, confidence ppf x y alpha tau = Return (Some p).
Proof.
  intros Hy Hn. destruct (Req_dec_T x 0) as [Hx | Hx].
  - eexists. apply confidence_zero_x; assumption.
  - eexists. apply confidence_general; assumption.
Qed.

(** X6.  [confidence] returns [None] exactly when [y = 0], raises
    [ZeroDivisionError] exactly when [y <> 0] and [x + y = 0], and returns a
    pair in every other case. *)
Theorem confidence_outcomes (ppf : R -> R) (x y alpha tau : R) :
  (confidence ppf x y alpha tau = Return None <-> y = 0)
  /\ (confidence ppf x y alpha tau = Raise ZeroDivisionError <->
      y <> 0 /\ x + y = 0)
  /\ ((exists p : R * R, confidence ppf x y alpha tau = Return (Some p)) <->
      y <> 0 /\ x + y <> 0).
Proof.
  destruct (Req_dec_T y 0) as [-> | Hy].
  - rewrite confidence_zero_y.
    split; [| split]; split; intros H; try reflexivity.
    + discriminate H.
    + destruct H as [H _]. now elim H.
    + destruct H as [p H]. discriminate H.
    + destruct H as [H _]. now elim H.
  - destruct (Req_dec_T (x + y) 0) as [En | Hn].
    + rewrite (confidence_raises ppf x y alpha tau Hy En).
      split; [| split]; split; intros H; try discriminate H.
      * contradiction.
      * split; assumption.
      * reflexivity.
      * destruct H as [p H]. discriminate H.
      * destruct H as [_ H]. contradiction.
    + destruct (confidence_returns_pair ppf x y alpha tau Hy Hn) as [p R].
      rewrite R.
      split; [| split]; split; intros H; try discriminate H.
      * contradiction.
      * destruct H as [_ H]. contradiction.
      * split; assumption.
      * exists p. reflexivity.
Qed.

(** ** confidence: where the bounds lie *)

Lemma risk_bounds_values (tau L U : R) :
  0 < tau -> 0 < L < 1 -> 0 < U < 1 ->
  risk_bounds tau L U
  = (1 - L / (1 - L) / tau, 1 - U / (1 - U) / tau).
Proof.
  intros Ht HL HU. unfold risk_bounds. cbv zeta.
  f_equal; field; repeat split; lra.
Qed.

Lemma odds_increasing (u v : R) : u < v -> v < 1 -> u / (1 - u) < v / (1 - v).
Proof.
  intros Huv Hv.
  assert (0 < v / (1 - v) - u / (1 - u)); [| lra].
  replace (v / (1 - v) - u / (1 - u)) with ((v - u) / ((1 - u) * (1 - v)))
    by (field; split; lra).
  apply Rdiv_lt_0_compat; [lra |]. apply Rmult_lt_0_compat; lra.
Qed.

Lemma odds_positive (u : R) : 0 < u < 1 -> 0 < u / (1 - u).
Proof. intros [H0 H1]. apply Rdiv_lt_0_compat; lra. Qed.

Lemma scaled_lt (u v tau : R) : 0 < tau -> u < v -> 1 - v / tau < 1 - u / tau.
Proof.
  intros Ht Huv.
  assert (u / tau < v / tau); [| lra].
  unfold Rdiv.
  apply Rmult_lt_compat_r; [apply Rinv_0_lt_compat, Ht | exact Huv].
Qed.

Section ProportionInterior.

Variables x y z : R.
Hypothesis x_pos : 0 < x.
Hypothesis y_pos : 0 < y.
Hypothesis z_neg : z < 0.

Let n := x + y.
Let q := x / n.
Let N := n + z * z.
Let D := q * (1 - q) + z * z / (4 * n).
Let a := (x + z * z / 2) / N.
Let s := z * np.sqrt n / N * np.sqrt D.

(** The observed proportion lies strictly between the two bounds. *)
Lemma q_between : a + s < q < a - s.
Proof.
  assert (Hn : 0 < n) by (unfold n; lra).
  assert (HN : 0 < N) by exact (N_pos x y z x_pos y_pos).
  assert (Hs : s < 0) by exact (s_negative x y z x_pos y_pos z_neg).
  assert (Ea : a * a - s * s = x * x / (n * N))
    by exact (a_s_squares x y z x_pos y_pos).
  assert (Ew : 0 < z * z) by nra.
  assert (Eq : (q - a) * (q - a) - s * s = - (x * y * (z * z) / (n * n * N))).
  { replace ((q - a) * (q - a) - s * s)
      with (q * q - 2 * q * a + (a * a - s * s)) by ring.
    rewrite Ea. unfold q, a. fold n. unfold N, n. field.
    unfold N, n in *. lra. }
  assert (Hpos : 0 < x * y * (z * z) / (n * n * N)).
  { apply Rdiv_lt_0_compat.
    - apply Rmult_lt_0_compat; [| exact Ew].
      apply Rmult_lt_0_compat; assumption.
    - repeat apply Rmult_lt_0_compat; assumption. }
  assert (Hprod : (q - a - s) * (q - a + s) < 0) by nra.
  split.
  - destruct (Rlt_le_dec (a + s) q) as [H | H]; [exact H | exfalso].
    assert (0 <= (- (q - a - s)) * (- (q - a + s)))
      by (apply Rmult_le_pos; lra).
    nra.
  - destruct (Rlt_le_dec q (a - s)) as [H | H]; [exact H | exfalso].
    assert (0 <= (q - a - s) * (q - a + s)) by (apply Rmult_le_pos; lra).
    lra.
Qed.

Lemma q_odds : q / (1 - q) = x / y.
Proof. unfold q, n. field. repeat split; lra. Qed.

(** The bounds as [confidence] names them, in their order on the line. *)
Lemma bounds_located :
  let L := fst (proportion_bounds x n q z) in
  let U := snd (proportion_bounds x n q z) in
  0 < U /\ U < q /\ q < L /\ L < 1.
Proof.
  intros L U. unfold L, U.
  assert (E : proportion_bounds x n q z = (a - s, a + s)) by reflexivity.
  rewrite E. cbn [fst snd].
  pose proof q_between as [H1 H2].
  assert (B : 0 < a - s /\ a + s < 1 /\ 0 < a + s /\ a - s < 1)
    by exact (bounds_in_unit x y z x_pos y_pos).
  lra.
Qed.

End ProportionInterior.

Section QuantileConsequences.

Variables Phi ppf : R -> R.
Hypothesis Phi_increasing : forall s t : R, s < t -> Phi s < Phi t.
Hypothesis Phi_median : Phi 0 = 1 / 2.
Hypothesis ppf_inverse : forall p : R, 0 < p < 1 -> Phi (ppf p) = p.

(** The pair of the general branch, with its bounds located. *)
Lemma general_branch_pair (x y alpha tau : R) :
  0 < x -> 0 < y -> 0 < tau -> 0 < alpha < 1 ->
  exists L U : R,
    confidence ppf x y alpha tau
    = Return (Some (1 - L / (1 - L) / tau, 1 - U / (1 - U) / tau))
    /\ (L, U) = proportion_bounds x (x + y) (x / (x + y)) (ppf (alpha / 2))
    /\ 0 < U /\ U < x / (x + y) /\ x / (x + y) < L /\ L < 1.
Proof.
  intros Hx Hy Ht Ha.
  assert (Hz : ppf (alpha / 2) < 0).
  { apply (lower_tail_quantile_negative Phi ppf); assumption. }
  pose proof (bounds_located x y _ Hx Hy Hz) as B. cbv zeta in B.
  set (pb := proportion_bounds x (x + y) (x / (x + y)) (ppf (alpha / 2))) in *.
  exists (fst pb), (snd pb).
  split; [| split; [destruct pb; reflexivity | exact B]].
  rewrite confidence_general by lra. fold pb.
  rewrite risk_bounds_values by lra. reflexivity.
Qed.

(** X7.  In the general branch ([x > 0], [y > 0], [tau > 0],
    [0 < alpha < 1]) the point estimate of [attributable] lies strictly
    inside the interval of [confidence]: [p_L < p < p_U]. *)
Theorem estimate_inside_interval (x y alpha tau : R) :
  0 < x -> 0 < y -> 0 < tau -> 0 < alpha < 1 ->
  exists p p_L p_U : R,
    attributable x y tau = Return p
    /\ confidence ppf x y alpha tau = Return (Some (p_L, p_U))
    /\ p_L < p < p_U.
Proof.
  intros Hx Hy Ht Ha.
  destruct (general_branch_pair x y alpha tau Hx Hy Ht Ha)
    as (L & U & E & _ & HU & HUq & HqL & HL).
  exists (1 - x / (tau * y)), (1 - L / (1 - L) / tau), (1 - U / (1 - U) / tau).
  split; [| split; [exact E |]].
  { unfold attributable. rewrite float_div_nonzero by nra. reflexivity. }
  replace (x / (tau * y)) with (x / (x + y) / (1 - x / (x + y)) / tau)
    by (field; repeat split; lra).
  split; apply scaled_lt; try assumption; apply odds_increasing; lra.
Qed.

(** X8.  For [x >= 0], [y > 0], [tau > 0] and [0 < alpha < 1] both returned
    bounds are below 1. *)
Theorem confidence_bounds_below_one (x y alpha tau : R) :
  0 <= x -> 0 < y -> 0 < tau -> 0 < alpha < 1 ->
  exists p_L p_U : R,
    confidence ppf x y alpha tau = Return (Some (p_L, p_U))
    /\ p_L < 1 /\ p_U < 1.
Proof.
  intros Hx Hy Ht Ha.
  destruct (Req_dec_T x 0) as [Hx0 | Hx0].
  - set (t := np.power alpha (1 / (x + y))).
    assert (T0 : 0 < t) by apply np_power_pos.
    assert (T1 : t < 1).
    { apply np_power_lt_1; [exact Ha |]. apply Rdiv_lt_0_compat; lra. }
    exists (1 - (1 - t) / (tau * t)), (1 - t).
    split; [apply confidence_zero_x; lra |].
    split; [| lra].
    assert (0 < (1 - t) / (tau * t)); [| lra].
    apply Rdiv_lt_0_compat; [lra |]. apply Rmult_lt_0_compat; assumption.
  - assert (Hxp : 0 < x) by lra.
    destruct (general_branch_pair x y alpha tau Hxp Hy Ht Ha)
      as (L & U & E & _ & HU & HUq & HqL & HL).
    assert (Hq : x / (x + y) < 1).
    { apply (Rmult_lt_reg_r (x + y)); [lra |].
      replace (x / (x + y) * (x + y)) with x by (field; lra). lra. }
    exists (1 - L / (1 - L) / tau), (1 - U / (1 - U) / tau).
    split; [exact E |].
    assert (0 < L / (1 - L) / tau).
    { apply Rdiv_lt_0_compat; [apply odds_positive; lra | exact Ht]. }
    assert (0 < U / (1 - U) / tau).
    { apply Rdiv_lt_0_compat; [apply odds_positive; lra | exact Ht]. }
    lra.
Qed.

(** X9.  For [x >= 0], [y > 0] and [0 < alpha < 1] the lower bound grows
    strictly with [tau]; the upper bound grows strictly with [tau] in the
    general branch and does not depend on [tau] in the [x == 0] branch. *)
Theorem confidence_increasing_in_tau (x y alpha tau1 tau2 : R) :
  0 <= x -> 0 < y -> 0 < alpha < 1 -> 0 < tau1 -> tau1 < tau2 ->
  exists p_L1 p_U1 p_L2 p_U2 : R,
    confidence ppf x y alpha tau1 = Return (Some (p_L1, p_U1))
    /\ confidence ppf x y alpha tau2 = Return (Some (p_L2, p_U2))
    /\ p_L1 < p_L2
    /\ (0 < x -> p_U1 < p_U2)
    /\ (x = 0 -> p_U1 = p_U2).
Proof.
  intros Hx Hy Ha H1 H12.
  assert (H2 : 0 < tau2) by lra.
  assert (Hinv : / tau2 < / tau1) by (apply Rinv_0_lt_contravar; assumption).
  assert (Hsc : forall c : R, 0 < c -> 1 - c / tau1 < 1 - c / tau2).
  { intros c Hc. unfold Rdiv.
    assert (c * / tau2 < c * / tau1)
      by (apply Rmult_lt_compat_l; assumption).
    lra. }
  destruct (Req_dec_T x 0) as [Hx0 | Hx0].
  - set (t := np.power alpha (1 / (x + y))).
    assert (T0 : 0 < t) by apply np_power_pos.
    assert (T1 : t < 1).
    { apply np_power_lt_1; [exact Ha |]. apply Rdiv_lt_0_compat; lra. }
    exists (1 - (1 - t) / (tau1 * t)), (1 - t),
           (1 - (1 - t) / (tau2 * t)), (1 - t).
    split; [apply confidence_zero_x; lra |].
    split; [apply confidence_zero_x; lra |].
    split; [| split; [intros; lra | reflexivity]].
    replace ((1 - t) / (tau1 * t)) with ((1 - t) / t / tau1)
      by (field; lra).
    replace ((1 - t) / (tau2 * t)) with ((1 - t) / t / tau2)
      by (field; lra).
    apply Hsc. apply Rdiv_lt_0_compat; lra.
  - assert (Hxp : 0 < x) by lra.
    destruct (general_branch_pair x y alpha tau1 Hxp Hy H1 Ha)
      as (L & U & E1 & Eb & HU & HUq & HqL & HL).
    destruct (general_branch_pair x y alpha tau2 Hxp Hy H2 Ha)
      as (L' & U' & E2 & Eb' & _).
    rewrite <- Eb in Eb'. injection Eb' as -> ->.
    assert (Hq : x / (x + y) < 1).
    { apply (Rmult_lt_reg_r (x + y)); [lra |].
      replace (x / (x + y) * (x + y)) with x by (field; lra). lra. }
    exists (1 - L / (1 - L) / tau1), (1 - U / (1 - U) / tau1),
           (1 - L / (1 - L) / tau2), (1 - U / (1 - U) / tau2).
    split; [exact E1 | split; [exact E2 |]].
    split; [| split].
    + apply Hsc, odds_positive. lra.
    + intros _. apply Hsc, odds_positive. lra.
    + intros H0. contradiction.
Qed.

End QuantileConsequences.

Lemma estimate_inside_interval_witness :
  exists p p_L p_U : R,
    attributable 10 10 2 = Return p
    /\ confidence logistic_ppf 10 10 (5 / 100) 2 = Return (Some (p_L, p_U))
    /\ p_L < p < p_U.
Proof.
  apply (estimate_inside_interval logistic_cdf logistic_ppf
           logistic_cdf_increasing logistic_cdf_median logistic_ppf_inverse
           10 10 (5 / 100) 2); lra.
Defined.

Lemma confidence_bounds_below_one_witness :
  exists p_L p_U : R,
    confidence logistic_ppf 10 10 (5 / 100) 2 = Return (Some (p_L, p_U))
    /\ p_L < 1 /\ p_U < 1.
Proof.
  apply (confidence_bounds_below_one logistic_cdf logistic_ppf
           logistic_cdf_increasing logistic_cdf_median logistic_ppf_inverse
           10 10 (5 / 100) 2); lra.
Defined.

Lemma confidence_increasing_in_tau_witness :
  exists p_L1 p_U1 p_L2 p_U2 : R,
    confidence logistic_ppf 10 10 (5 / 100) 1 = Return (Some (p_L1, p_U1))
    /\ confidence logistic_ppf 10 10 (5 / 100) 2 = Return (Some (p_L2, p_U2))
    /\ p_L1 < p_L2
    /\ (0 < 10 -> p_U1 < p_U2)
    /\ (10 = 0 -> p_U1 = p_U2).
Proof.
  apply (confidence_increasing_in_tau logistic_cdf logistic_ppf
           logistic_cdf_increasing logistic_cdf_median logistic_ppf_inverse
           10 10 (5 / 100) 1 2); lra.
Defined.

(** X10.  With no event before the change ([x = 0]), more events after it
    sharpen the result: for [y1 < y2] the lower bound [p_L] is strictly
    larger at [y2], and the second component strictly smaller. *)
Theorem confidence_zero_x_sharpens (ppf : R -> R) (y1 y2 alpha tau : R) :
  0 < y1 -> y1 < y2 -> 0 < tau -> 0 < alpha < 1 ->
  exists p_L1 p_U1 p_L2 p_U2 : R,
    confidence ppf 0 y1 alpha tau = Return (Some (p_L1, p_U1))
    /\ confidence ppf 0 y2 alpha tau = Return (Some (p_L2, p_U2))
    /\ p_L1 < p_L2
    /\ p_U2 < p_U1.
Proof.
  intros H1 H12 Ht Ha.
  set (t1 := np.power alpha (1 / (0 + y1))).
  set (t2 := np.power alpha (1 / (0 + y2))).
  assert (P1 : 0 < t1) by apply np_power_pos.
  assert (P2 : 0 < t2) by apply np_power_pos.
  assert (Ht12 : t1 < t2).
  { unfold t1, t2, np.power, Rpower. apply exp_increasing.
    rewrite !Rplus_0_l.
    assert (Hln : ln alpha < 0).
    { destruct Ha as [Ha0 Ha1].
      pose proof (ln_increasing alpha 1 Ha0 Ha1) as H. rewrite ln_1 in H.
      exact H. }
    assert (Hi : 1 / y2 < 1 / y1).
    { unfold Rdiv. rewrite !Rmult_1_l.
      apply Rinv_0_lt_contravar; assumption. }
    assert (0 < (1 / y1 - 1 / y2) * (- ln alpha))
      by (apply Rmult_lt_0_compat; lra).
    lra. }
  assert (T2 : t2 < 1).
  { apply np_power_lt_1; [exact Ha |]. apply Rdiv_lt_0_compat; lra. }
  exists (1 - (1 - t1) / (tau * t1)), (1 - t1),
         (1 - (1 - t2) / (tau * t2)), (1 - t2).
  split; [apply confidence_zero_x; lra |].
  split; [apply confidence_zero_x; lra |].
  split; [| lra].
  replace ((1 - t1) / (tau * t1)) with ((/ t1 - 1) / tau) by (field; lra).
  replace ((1 - t2) / (tau * t2)) with ((/ t2 - 1) / tau) by (field; lra).
  apply scaled_lt; [exact Ht |].
  assert (/ t2 < / t1) by (apply Rinv_0_lt_contravar; assumption).
  lra.
Qed.

Lemma confidence_zero_x_sharpens_witness :
  exists p_L1 p_U1 p_L2 p_U2 : R,
    confidence logistic_ppf 0 10 (5 / 100) 2 = Return (Some (p_L1, p_U1))
    /\ confidence logistic_ppf 0 20 (5 / 100) 2 = Return (Some (p_L2, p_U2))
    /\ p_L1 < p_L2
    /\ p_U2 < p_U1.
Proof.
  apply (confidence_zero_x_sharpens logistic_ppf 10 20 (5 / 100) 2); lra.
Defined.

(** X11.  In the general branch the sign of the quantile only decides the
    order of the pair: with the quantile negated (the upper tail instead of
    the lower one) [confidence] returns the same two numbers swapped. *)
Theorem confidence_quantile_sign (ppf : R -> R) (x y alpha tau : R) :
  x <> 0 -> y <> 0 -> x + y <> 0 ->
  exists p_L p_U : R,
    confidence ppf x y alpha tau = Return (Some (p_L, p_U))
    /\ confidence (fun p : R => - ppf p) x y alpha tau
       = Return (Some (p_U, p_L)).
Proof.
  intros Hx Hy Hn.
  set (pb := proportion_bounds x (x + y) (x / (x + y)) (ppf (alpha / 2))).
  exists (fst (risk_bounds tau (fst pb) (snd pb))),
         (snd (risk_bounds tau (fst pb) (snd pb))).
  rewrite !confidence_general by assumption. fold pb.
  split; [destruct (risk_bounds tau (fst pb) (snd pb)); reflexivity |].
  assert (E : proportion_bounds x (x + y) (x / (x + y)) (- ppf (alpha / 2))
              = (snd pb, fst pb)).
  { unfold pb, proportion_bounds. cbv zeta. cbn [fst snd].
    replace (- ppf (alpha / 2) * - ppf (alpha / 2))
      with (ppf (alpha / 2) * ppf (alpha / 2)) by ring.
    f_equal; unfold Rdiv; ring. }
  rewrite E. reflexivity.
Qed.

Lemma confidence_quantile_sign_witness :
  exists p_L p_U : R,
    confidence logistic_ppf 10 10 (5 / 100) 2 = Return (Some (p_L, p_U))
    /\ confidence (fun p : R => - logistic_ppf p) 10 10 (5 / 100) 2
       = Return (Some (p_U, p_L)).
Proof.
  apply (confidence_quantile_sign logistic_ppf 10 10 (5 / 100) 2); lra.
Defined.

(** ** jointProb: what a call ends in *)

(** X12.  [jointProb] returns a number on no input: it raises
    [ZeroDivisionError] exactly when [T2] is zero, whether an int or a float,
    and [AttributeError] on every other input. *)
Theorem jointProb_outcomes (x y : nat) (mu beta : R) (T1 T2 : num) :
  (jointProb x y mu beta T1 T2 = Raise ZeroDivisionError <-> to_float T2 = 0)
  /\ (jointProb x y mu beta T1 T2 = Raise AttributeError <->
      to_float T2 <> 0)
  /\ (forall p : R, jointProb x y mu beta T1 T2 <> Return p).
Proof.
  destruct (Req_dec_T (to_float T2) 0) as [E | N].
  - rewrite (jointProb_zero_T2 x y mu beta T1 T2 E).
    split; [| split].
    + split; intros _; [exact E | reflexivity].
    + split; intros H; [discriminate H | contradiction].
    + intros p. discriminate.
  - rewrite (jointProb_nonzero_T2 x y mu beta T1 T2 N).
    split; [| split].
    + split; intros H; [discriminate H | contradiction].
    + split; intros _; [exact N | reflexivity].
    + intros p. discriminate.
Qed.

(** ** plot_results *)

Section PlottedBand.

Variables Phi ppf : R -> R.
Hypothesis Phi_increasing : forall s t : R, s < t -> Phi s < Phi t.
Hypothesis Phi_median : Phi 0 = 1 / 2.
Hypothesis ppf_inverse : forall p : R, 0 < p < 1 -> Phi (ppf p) = p.



End PlottedBand.


(** X16.  The [None] of [confidence] never reaches the unpacking in
    [plot_results]: with [y = 0] the sweep of [attributable], which comes
    first, has already raised [ZeroDivisionError]; and on no input at all
    does the unpacking fail. *)
Theorem plot_results_sentinel_unreached (ppf : R -> R) (x y : R) :
  plot_results ppf x 0 = PlotRaise ZeroDivisionError
  /\ plot_results ppf x y <> UnpackError.
Proof.
  assert (Z : forall x' : R,
             plot_results ppf x' 0 = PlotRaise ZeroDivisionError).
  { intros x'. unfold plot_results, tau_sweep. cbn [vectorize].
    unfold attributable at 1. rewrite Rmult_0_r, float_div_zero.
    reflexivity. }
  split; [apply Z |].
  destruct (Req_dec_T y 0) as [-> | Hy]; [rewrite Z; discriminate |].
  assert (A : forall tau : R,
             0 < tau ->
             attributable x y tau = Return (1 - x / (tau * y))).
  { intros tau Ht. unfold attributable.
    rewrite float_div_nonzero; [reflexivity |].
    intros E. apply Rmult_integral in E. destruct E; [lra | contradiction]. }
  unfold plot_results, tau_sweep. cbn [vectorize].
  rewrite !A by lra. cbn [bind].
  destruct (Req_dec_T (x + y) 0) as [En | Hn].
  - rewrite (confidence_raises ppf x y (5 / 100) (1 / 2) Hy En).
    cbn [bind]. discriminate.
  - destruct (confidence_returns_pair ppf x y (5 / 100) (1 / 2) Hy Hn)
      as [[l1 u1] C1].
    destruct (confidence_returns_pair ppf x y (5 / 100) 1 Hy Hn)
      as [[l2 u2] C2].
    destruct (confidence_returns_pair ppf x y (5 / 100) 2 Hy Hn)
      as [[l3 u3] C3].
    destruct (confidence_returns_pair ppf x y (5 / 100) 3 Hy Hn)
      as [[l4 u4] C4].
    destruct (confidence_returns_pair ppf x y (5 / 100) 4 Hy Hn)
      as [[l5 u5] C5].
    destruct (confidence_returns_pair ppf x y (5 / 100) 5 Hy Hn)
      as [[l6 u6] C6].
    rewrite C1, C2, C3, C4, C5, C6. cbn [bind unpack].
    destruct (Req_dec_T x 0); discriminate.
Qed.
